(** * Mock user directory: [sample_api.py] and [sample_api_refactored.py]

    A shallow embedding of the two Python modules and the properties of
    their list / lookup / creation operations, of [validate_input] and of
    the in-memory [UserService].

    Python integers are unbounded, so they are [Z]; Python [str] is
    [string]; a [list] is a [list]; a [dict] is a [gmap], keyed by the
    hashable values; [None]-or-value results are [option]; an operation
    that can raise returns a [result]. *)

From stdpp Require Import base decidable option countable strings pretty.
From stdpp Require Import list list_numbers fin_maps gmap.

(** ** Python values *)

(** The values a dictionary can carry: [None], [int], [str] and [list].
    On them Python's [==] is structural equality.  [None], [int] and
    [str] are hashable; a [list] is not. *)
#[warnings="-register-all"] Inductive pyval : Type :=
  | VNone
  | VInt (n : Z)
  | VStr (s : string)
  | VList (items : list pyval).

Definition pyval_eq_decide : ∀ x y : pyval, {x = y} + {x ≠ y}.
Proof.
  fix IH 1. intros [|n|s|l] [|m|t|k]; try (right; discriminate).
  - by left.
  - destruct (decide (n = m)) as [->|]; [by left | right; congruence].
  - destruct (decide (s = t)) as [->|]; [by left | right; congruence].
  - destruct (List.list_eq_dec IH l k) as [->|]; [by left | right; congruence].
Defined.

#[global] Instance pyval_eq_dec : EqDecision pyval := pyval_eq_decide.

(** The hashable values, which are the keys a [dict] can have. *)
Inductive pykey : Type :=
  | KNone
  | KInt (n : Z)
  | KStr (s : string).

#[global] Instance pykey_eq_dec : EqDecision pykey.
Proof. solve_decision. Defined.

Definition pykey_enc (k : pykey) : unit + (Z + string) :=
  match k with
  | KNone => inl ()
  | KInt n => inr (inl n)
  | KStr s => inr (inr s)
  end.

Definition pykey_dec (x : unit + (Z + string)) : pykey :=
  match x with
  | inl _ => KNone
  | inr (inl n) => KInt n
  | inr (inr s) => KStr s
  end.

#[global] Instance pykey_countable : Countable pykey.
Proof. apply (inj_countable' pykey_enc pykey_dec). by intros []. Defined.

(** [hash(v)] as far as a [dict] needs it: the key that the value [v]
    is, or nothing when [v] is unhashable and using it as a key raises
    [TypeError]. *)
Definition py_hash (v : pyval) : option pykey :=
  match v with
  | VNone => Some KNone
  | VInt n => Some (KInt n)
  | VStr s => Some (KStr s)
  | VList _ => None
  end.

(** A record in mapping shape: a [dict] with string keys. *)
Abbreviation Dict := (gmap string pyval).

(** Exceptions, and results of operations that may raise. *)
Inductive exn : Type :=
  | KeyError (key : pyval)
  | TypeError (value : pyval).

Inductive result (A : Type) : Type :=
  | Ok (a : A)
  | Raise (e : exn).
Arguments Ok {A} a.
Arguments Raise {A} e.

(** ** Builtins used by the source *)

(** [str(i)] for an [int]: decimal digits, a leading [-] when negative. *)
Definition str (i : Z) : string := pretty i.

(** [range(start, stop)]: [start, start+1, ..., stop-1]; empty when
    [stop <= start]. *)
Definition range (start stop : Z) : list Z := seqZ start (stop - start).

(** The f-string [f"User {i}"]. *)
Definition fmt_user (i : Z) : string := "User " +:+ str i.

(** [not data] for a value that is [None] or a [dict]: true for [None]
    and for the empty dict. *)
Definition py_not (data : option Dict) : bool :=
  match data with
  | None => true
  | Some d => bool_decide (d = ∅)
  end.

(** [key in d] for a dict [d]. *)
Definition py_in (key : string) (d : Dict) : bool :=
  bool_decide (is_Some (d !! key)).

(** ** sample_api.py *)
Module Original.

(** [get_users(limit=10, offset=0)]; a call that leaves an argument out
    passes its default. *)
Definition limit_default : Z := 10.
Definition offset_default : Z := 0.

Definition get_users (limit offset : Z) : list Dict :=
  (λ i, {[ "id" := VInt i; "name" := VStr (fmt_user i) ]} : Dict)
    <$> range offset (offset + limit).

(** [get_user_by_id(user_id)] *)
Definition get_user_by_id (user_id : string) : option Dict :=
  if String.eqb user_id "not_found" then None
  else Some {[ "id" := VStr user_id;
               "name" := VStr "Test User";
               "email" := VStr "test@example.com" ]}.

(** [post_create_user(name, email)] *)
Definition post_create_user (name email : string) : Dict :=
  {[ "id" := VStr "usr_new"; "name" := VStr name; "email" := VStr email ]}.

(** The loop [for key in keys: if key not in data: return False] of
    [validate_input], followed by its [return True]. *)
Fixpoint validate_keys (keys : list string) (d : Dict) : bool :=
  match keys with
  | [] => true
  | key :: rest => if negb (py_in key d) then false else validate_keys rest d
  end.

(** [validate_input(data)] *)
Definition validate_input (data : option Dict) : bool :=
  if py_not data then false
  else match data with
       | None => false
       | Some d => validate_keys ["name"; "email"] d
       end.

(** [class UserService]: the attribute [self.users], a dict from the
    value found under ["id"] to the record. *)
Record UserService : Type := { users : gmap pykey Dict }.

(** [UserService.__init__] *)
Definition init : UserService := {| users := ∅ |}.

(** [UserService.add_user]: the subscript [user["id"]] raises
    [KeyError('id')] when the key is missing; the store
    [self.users[...] = user] raises [TypeError] when the value found is
    unhashable.  Either way nothing is stored. *)
Definition add_user (self : UserService) (user : Dict) : result UserService :=
  match user !! "id" with
  | None => Raise (KeyError (VStr "id"))
  | Some v =>
      match py_hash v with
      | None => Raise (TypeError v)
      | Some k => Ok {| users := <[k := user]> (users self) |}
      end
  end.

(** [UserService.get_user]: [dict.get], [None] when the key is missing. *)
Definition get_user (self : UserService) (user_id : pykey) : option Dict :=
  users self !! user_id.

(** *** A caller of the module

    A caller holds one [UserService] and issues calls one after the
    other; an exception raised by a call is seen by the caller and leaves
    the service as it was. *)
Inductive call : Type :=
  | GetUsers (limit offset : Z)
  | GetUserById (user_id : string)
  | PostCreateUser (name email : string)
  | AddUser (user : Dict)
  | GetUser (user_id : pykey).

Inductive response : Type :=
  | RUsers (l : list Dict)
  | RLookup (o : option Dict)
  | RCreated (d : Dict)
  | RNone
  | RRaised (e : exn).

Definition exec (svc : UserService) (c : call) : UserService * response :=
  match c with
  | GetUsers limit offset => (svc, RUsers (get_users limit offset))
  | GetUserById user_id => (svc, RLookup (get_user_by_id user_id))
  | PostCreateUser name email => (svc, RCreated (post_create_user name email))
  | AddUser user =>
      match add_user svc user with
      | Ok svc' => (svc', RNone)
      | Raise e => (svc, RRaised e)
      end
  | GetUser user_id => (svc, RLookup (get_user svc user_id))
  end.

(** The service after a sequence of calls on a fresh instance. *)
Definition run (cs : list call) : UserService :=
  foldl (λ svc c, (exec svc c).1) init cs.

End Original.

(** ** sample_api_refactored.py *)
Module Refactored.

(** [@dataclass class User], with the default [email = ""]. *)
Record User : Type := { id : string; name : string; email : string }.

Definition email_default : string := "".

#[global] Instance User_eq_dec : EqDecision User.
Proof. solve_decision. Defined.

(** [get_users(limit=10, offset=0)]; a call that leaves an argument out
    passes its default. *)
Definition limit_default : Z := 10.
Definition offset_default : Z := 0.

Definition get_users (limit offset : Z) : list User :=
  (λ i, {| id := str i; name := fmt_user i; email := email_default |})
    <$> range offset (offset + limit).

(** [get_user_by_id(user_id)] *)
Definition get_user_by_id (user_id : string) : option User :=
  if String.eqb user_id "not_found" then None
  else Some {| id := user_id; name := "Test User"; email := "test@example.com" |}.

(** [post_create_user(name, email)] *)
Definition post_create_user (name email : string) : User :=
  {| id := "usr_new"; name := name; email := email |}.

End Refactored.

(** ** Specification-side notions *)

(** A mapping-shaped record [d] and a fixed-field record [u] carry the
    same user: the strings under ["id"] and ["name"] are [u]'s, and the
    string under ["email"], or the default when the key is missing, is
    [u]'s email. *)
Definition same_user (d : Dict) (u : Refactored.User) : Prop :=
  d !! "id" = Some (VStr (Refactored.id u)) ∧
  d !! "name" = Some (VStr (Refactored.name u)) ∧
  default (VStr Refactored.email_default) (d !! "email")
    = VStr (Refactored.email u).

#[global] Instance same_user_dec d u : Decision (same_user d u).
Proof. unfold same_user. apply _. Defined.

(** The key under which [add_user] files a record: the value under
    ["id"], when there is one and it is hashable. *)
Definition record_key (user : Dict) : option pykey :=
  user !! "id" ≫= py_hash.

(** The record a caller added last under the key [k], if any. *)
Definition added_under (k : pykey) (c : Original.call) : option Dict :=
  match c with
  | Original.AddUser user =>
      if decide (record_key user = Some k) then Some user else None
  | _ => None
  end.

Definition last_added (cs : list Original.call) (k : pykey) : option Dict :=
  last (omap (added_under k) cs).

(** Every stored record is filed under the value of its own ["id"]. *)
Definition filed_by_id (svc : Original.UserService) : Prop :=
  ∀ k r, Original.users svc !! k = Some r → record_key r = Some k.

(** No two entries of the store hold records with the same id. *)
Definition one_record_per_id (svc : Original.UserService) : Prop :=
  ∀ k1 k2 r1 r2 v,
    Original.users svc !! k1 = Some r1 →
    Original.users svc !! k2 = Some r2 →
    r1 !! "id" = Some v → r2 !! "id" = Some v →
    k1 = k2 ∧ r1 = r2.

(** ** Sanity checks of the embedding on concrete inputs *)

Example str_examples :
  str 0 = "0" ∧ str 42 = "42" ∧ str (-7) = "-7" ∧ str 1205 = "1205".
Proof. repeat split; reflexivity. Qed.

Example range_examples :
  range 3 6 = [3; 4; 5]%Z ∧ range 3 3 = [] ∧ range 3 1 = []
  ∧ range (-2) 1 = [-2; -1; 0]%Z.
Proof. repeat split; reflexivity. Qed.

Example get_users_orig_example :
  Original.get_users 2 5 =
    [ {[ "id" := VInt 5; "name" := VStr "User 5" ]};
      {[ "id" := VInt 6; "name" := VStr "User 6" ]} ].
Proof. vm_compute. reflexivity. Qed.

Example get_users_ref_example :
  Refactored.get_users 2 5 =
    [ {| Refactored.id := "5"; Refactored.name := "User 5"; Refactored.email := "" |};
      {| Refactored.id := "6"; Refactored.name := "User 6"; Refactored.email := "" |} ].
Proof. vm_compute. reflexivity. Qed.

Example get_users_defaults :
  length (Original.get_users Original.limit_default Original.offset_default) = 10%nat
  ∧ Refactored.id <$> Refactored.get_users Refactored.limit_default Refactored.offset_default
    = ["0"; "1"; "2"; "3"; "4"; "5"; "6"; "7"; "8"; "9"].
Proof. split; vm_compute; reflexivity. Qed.

Example validate_input_examples :
  Original.validate_input (Some ∅) = false
  ∧ Original.validate_input None = false
  ∧ Original.validate_input (Some {[ "name" := VStr "a" ]}) = false
  ∧ Original.validate_input (Some {[ "name" := VStr "a"; "email" := VStr "b" ]}) = true
  ∧ Original.validate_input (Some {[ "name" := VNone; "email" := VInt 3; "x" := VNone ]}) = true.
Proof. repeat split; vm_compute; reflexivity. Qed.

(** ** The list operation *)

Lemma range_from_len (a n : Z) : range a (a + n) = seqZ a n.
Proof. unfold range. f_equal. lia. Qed.

Lemma range_empty (a b : Z) : (b ≤ a)%Z → range a b = [].
Proof. intros Hle. unfold range. apply seqZ_nil. lia. Qed.

Lemma range_lookup (a n : Z) (i : nat) :
  (Z.of_nat i < n)%Z → range a (a + n) !! i = Some (a + Z.of_nat i)%Z.
Proof. intros Hi. rewrite range_from_len. by apply lookup_seqZ_lt. Qed.

Lemma range_length (a n : Z) : length (range a (a + n)) = Z.to_nat n.
Proof. rewrite range_from_len. apply length_seqZ. Qed.

(** The refactored list operation: [limit] records, the [i]-th built from
    [offset + i] in string form, the email left at its default. *)
Lemma get_users_ref_length (limit offset : Z) :
  length (Refactored.get_users limit offset) = Z.to_nat limit.
Proof. unfold Refactored.get_users. by rewrite length_fmap, range_length. Qed.

Lemma get_users_ref_lookup (limit offset : Z) (i : nat) :
  (Z.of_nat i < limit)%Z →
  Refactored.get_users limit offset !! i =
    Some {| Refactored.id := str (offset + Z.of_nat i);
            Refactored.name := "User " +:+ str (offset + Z.of_nat i);
            Refactored.email := "" |}.
Proof.
  intros Hi. unfold Refactored.get_users.
  rewrite list_lookup_fmap, range_lookup by done. reflexivity.
Qed.

(** The original list operation: [limit] dictionaries, the [i]-th with
    the integer [offset + i] under ["id"], the formatted name under
    ["name"], and no other key. *)
Lemma get_users_orig_length (limit offset : Z) :
  length (Original.get_users limit offset) = Z.to_nat limit.
Proof. unfold Original.get_users. by rewrite length_fmap, range_length. Qed.

Lemma get_users_orig_lookup (limit offset : Z) (i : nat) :
  (Z.of_nat i < limit)%Z →
  Original.get_users limit offset !! i =
    Some {[ "id" := VInt (offset + Z.of_nat i);
            "name" := VStr ("User " +:+ str (offset + Z.of_nat i)) ]}.
Proof.
  intros Hi. unfold Original.get_users.
  rewrite list_lookup_fmap, range_lookup by done. reflexivity.
Qed.

Lemma get_users_orig_fields (limit offset : Z) (i : nat) (d : Dict) :
  Original.get_users limit offset !! i = Some d →
  d !! "id" = Some (VInt (offset + Z.of_nat i))
  ∧ d !! "name" = Some (VStr ("User " +:+ str (offset + Z.of_nat i)))
  ∧ d !! "email" = None.
Proof.
  intros Hd.
  assert (Z.of_nat i < limit)%Z as Hi.
  { apply lookup_lt_Some in Hd. rewrite get_users_orig_length in Hd. lia. }
  rewrite get_users_orig_lookup in Hd by done.
  injection Hd as <-. by rewrite !lookup_insert.
Qed.

(** C1: the list operation of both files returns [limit] records whose
    ids are the string forms of [offset + i].  The original file breaks
    this: at [limit = 1], [offset = 0] it returns one dictionary whose
    ["id"] is the integer [0], which is not the string ["0"], while the
    refactored file returns the record with [id = "0"]. *)
Theorem C1_get_users_orig_id_is_int :
  Original.get_users 1 0 = [ {[ "id" := VInt 0; "name" := VStr "User 0" ]} ]
  ∧ (Original.get_users 1 0 !! 0%nat) ≫= (.!! "id") = Some (VInt 0)
  ∧ (Original.get_users 1 0 !! 0%nat) ≫= (.!! "id") ≠ Some (VStr (str (0 + 0)))
  ∧ Refactored.id <$> (Refactored.get_users 1 0 !! 0%nat) = Some (str (0 + 0)).
Proof. repeat split; vm_compute; congruence. Qed.

(** ** The refactored file against the original *)

Lemma eqb_not_found (user_id : string) :
  String.eqb user_id "not_found" = true ↔ user_id = "not_found".
Proof. apply String.eqb_eq. Qed.

(** Lookup: both files answer [None] on the sentinel and the same user
    otherwise. *)
Lemma get_user_by_id_refines (user_id : string) :
  option_Forall2 same_user
    (Original.get_user_by_id user_id) (Refactored.get_user_by_id user_id).
Proof.
  unfold Original.get_user_by_id, Refactored.get_user_by_id.
  destruct (String.eqb user_id "not_found"); constructor.
  by repeat split.
Qed.

(** Creation: both files return the same user. *)
Lemma post_create_user_refines (name email : string) :
  same_user (Original.post_create_user name email)
            (Refactored.post_create_user name email).
Proof. by repeat split. Qed.

(** Listing: the two files return as many records, with the same names
    and no email; the refactored id is the string form of the integer
    that the original stores under ["id"]. *)
Lemma get_users_agree_up_to_str (limit offset : Z) :
  Forall2 (λ (d : Dict) (u : Refactored.User),
             (∃ n, d !! "id" = Some (VInt n) ∧ Refactored.id u = str n)
             ∧ d !! "name" = Some (VStr (Refactored.name u))
             ∧ d !! "email" = None ∧ Refactored.email u = "")
          (Original.get_users limit offset)
          (Refactored.get_users limit offset).
Proof.
  unfold Original.get_users, Refactored.get_users.
  apply Forall2_fmap, Forall_Forall2_diag, Forall_forall.
  intros i _. split; [by exists i|]. by repeat split.
Qed.

(** C2: every operation of the refactored file returns the same user as
    the original one.  This fails on the list operation: at [limit = 1],
    [offset = 0] the original record has the integer [0] under ["id"]
    and the refactored one has the string ["0"], so the two lists do not
    carry the same users. *)
Theorem C2_get_users_not_same_user :
  ¬ Forall2 same_user (Original.get_users 1 0) (Refactored.get_users 1 0)
  ∧ (Original.get_users 1 0 !! 0%nat) ≫= (.!! "id") = Some (VInt 0)
  ∧ Refactored.id <$> (Refactored.get_users 1 0 !! 0%nat) = Some "0".
Proof.
  split; [|split; vm_compute; reflexivity].
  intros H. apply Forall2_cons_1 in H as [[Hid _] _].
  vm_compute in Hid. discriminate Hid.
Qed.

(** ** The lookup operation *)

(** C3: in both files the lookup returns [None] exactly on the literal
    ["not_found"]; on every other string it returns the record with that
    id, the name ["Test User"] and the email ["test@example.com"]. *)
Theorem C3_get_user_by_id_spec (user_id : string) :
  (Original.get_user_by_id user_id = None ↔ user_id = "not_found")
  ∧ (Refactored.get_user_by_id user_id = None ↔ user_id = "not_found")
  ∧ (user_id ≠ "not_found" →
       (∃ d, Original.get_user_by_id user_id = Some d
             ∧ d !! "id" = Some (VStr user_id)
             ∧ d !! "name" = Some (VStr "Test User")
             ∧ d !! "email" = Some (VStr "test@example.com")
             ∧ dom d = {[ "id"; "name"; "email" ]})
       ∧ Refactored.get_user_by_id user_id =
           Some {| Refactored.id := user_id;
                   Refactored.name := "Test User";
                   Refactored.email := "test@example.com" |}).
Proof.
  unfold Original.get_user_by_id, Refactored.get_user_by_id.
  destruct (String.eqb user_id "not_found") eqn:E.
  - apply eqb_not_found in E. by repeat split.
  - assert (user_id ≠ "not_found") as Hne.
    { intros Heq. apply eqb_not_found in Heq. congruence. }
    repeat split; try done.
    eexists. split; [reflexivity|]. by repeat split.
Qed.

Lemma C3_get_user_by_id_witness :
  "u1" ≠ "not_found"
  ∧ (∃ d, Original.get_user_by_id "u1" = Some d
          ∧ d !! "id" = Some (VStr "u1")
          ∧ d !! "name" = Some (VStr "Test User")
          ∧ d !! "email" = Some (VStr "test@example.com")
          ∧ dom d = {[ "id"; "name"; "email" ]})
  ∧ Refactored.get_user_by_id "u1" =
      Some {| Refactored.id := "u1";
              Refactored.name := "Test User";
              Refactored.email := "test@example.com" |}.
Proof.
  assert ("u1" ≠ "not_found") as Hne by discriminate.
  split; [exact Hne|].
  exact (proj2 (proj2 (C3_get_user_by_id_spec "u1")) Hne).
Defined.

(** ** Input validation *)

Lemma py_in_true (key : string) (d : Dict) :
  py_in key d = true ↔ is_Some (d !! key).
Proof. unfold py_in. apply bool_decide_eq_true. Qed.

Lemma py_in_false (key : string) (d : Dict) :
  py_in key d = false ↔ d !! key = None.
Proof.
  unfold py_in. rewrite bool_decide_eq_false. symmetry. apply eq_None_not_Some.
Qed.

(** The loop accepts exactly the dicts that have every listed key. *)
Lemma validate_keys_true (keys : list string) (d : Dict) :
  Original.validate_keys keys d = true ↔ Forall (λ k, is_Some (d !! k)) keys.
Proof.
  induction keys as [|key rest IH]; simpl.
  - split; [constructor | done].
  - rewrite Forall_cons, <- IH.
    destruct (py_in key d) eqn:E; simpl.
    + apply py_in_true in E. tauto.
    + apply py_in_false in E. split; [done|].
      intros [[x Hx] _]. congruence.
Qed.

Lemma validate_input_true (data : option Dict) :
  Original.validate_input data = true ↔
  ∃ d, data = Some d ∧ is_Some (d !! "name") ∧ is_Some (d !! "email").
Proof.
  unfold Original.validate_input, py_not. destruct data as [d|].
  - case_bool_decide as Hd.
    + subst d. split; [done|]. intros (d & [= <-] & [x Hx] & _).
      by rewrite lookup_empty in Hx.
    + rewrite validate_keys_true, !Forall_cons, Forall_nil.
      split; [intros (? & ? & _); eauto | intros (? & [= <-] & ? & ?); auto].
  - split; [done | intros (? & ? & _); done].
Qed.

(** C4: [validate_input] returns [False] on [None], on the empty mapping
    and on a mapping without ["name"] or without ["email"]; on every
    other mapping it returns [True], whatever the values under the two
    keys and whatever other keys there are. *)
Theorem C4_validate_input_spec (data : option Dict) :
  (data = None ∨ data = Some ∅
   ∨ (∃ d, data = Some d ∧ (d !! "name" = None ∨ d !! "email" = None)) →
   Original.validate_input data = false)
  ∧ (¬ (data = None ∨ data = Some ∅
        ∨ (∃ d, data = Some d ∧ (d !! "name" = None ∨ d !! "email" = None))) →
     Original.validate_input data = true)
  ∧ (∀ d k v, data = Some d → Original.validate_input data = true →
       k ≠ "name" → k ≠ "email" →
       Original.validate_input (Some (<[k := v]> d)) = true
       ∧ Original.validate_input (Some (<["name" := v]> d)) = true
       ∧ Original.validate_input (Some (<["email" := v]> d)) = true).
Proof.
  split; [|split].
  - intros Hbad. apply not_true_is_false. rewrite validate_input_true.
    intros (d & Hd & [x Hx] & [y Hy]).
    destruct Hbad as [Hn|[He|(d' & Hd' & Hl)]]; simplify_eq.
    destruct Hl; congruence.
  - intros Hgood. apply validate_input_true.
    destruct data as [d|]; [|by destruct Hgood; left].
    exists d. split; [done|].
    split; apply not_eq_None_Some; intros Hnone;
      apply Hgood; right; right; exists d; auto.
  - intros d k v -> Hok Hk1 Hk2.
    apply validate_input_true in Hok as (? & [= <-] & Hn & He).
    repeat split; apply validate_input_true; eexists; (split; [reflexivity|]);
      rewrite ?lookup_insert; repeat case_decide; simplify_eq; eauto.
Qed.

Lemma C4_validate_input_witness :
  Original.validate_input (Some ∅) = false
  ∧ Original.validate_input
      (Some {[ "name" := VInt 7; "email" := VNone; "age" := VInt 30 ]}) = true.
Proof.
  split.
  - apply (proj1 (C4_validate_input_spec (Some ∅))). right; left; reflexivity.
  - apply (proj1 (proj2 (C4_validate_input_spec
             (Some {[ "name" := VInt 7; "email" := VNone; "age" := VInt 30 ]})))).
    intros [H|[H|(d & [= <-] & [H|H])]]; vm_compute in H; discriminate H.
Defined.

(** ** The in-memory store *)

Lemma py_hash_inj (v1 v2 : pyval) (k : pykey) :
  py_hash v1 = Some k → py_hash v2 = Some k → v1 = v2.
Proof. destruct v1, v2; simpl; congruence. Qed.

Lemma record_key_Some (user : Dict) (k : pykey) :
  record_key user = Some k ↔ ∃ v, user !! "id" = Some v ∧ py_hash v = Some k.
Proof.
  unfold record_key. destruct (user !! "id") as [v|]; simpl.
  - split; [by exists v | by intros (? & [= <-] & ?)].
  - split; [done | by intros (? & ? & _)].
Qed.

Lemma add_user_ok (svc : Original.UserService) (user : Dict) (k : pykey) :
  record_key user = Some k →
  Original.add_user svc user
    = Ok {| Original.users := <[k := user]> (Original.users svc) |}.
Proof.
  intros (v & Hv & Hk)%record_key_Some.
  unfold Original.add_user. by rewrite Hv, Hk.
Qed.

Lemma add_user_raises (svc : Original.UserService) (user : Dict) :
  user !! "id" = None →
  Original.add_user svc user = Raise (KeyError (VStr "id")).
Proof. intros Hk. unfold Original.add_user. by rewrite Hk. Qed.

(** C5: after [add_user(r)] the store maps [r]'s id, a hashable value,
    to [r], whatever was stored under that id before, so [get_user] on
    that id returns [r]; a
    second [add_user] under the same id wins over the first; and
    [get_user(k)] returns [None] when the store has no key [k]. *)
Theorem C5_store_add_then_get
    (svc : Original.UserService) (r : Dict) (v : pyval) (k : pykey) :
  (r !! "id" = Some v → py_hash v = Some k →
     ∃ svc', Original.add_user svc r = Ok svc'
             ∧ Original.users svc' !! k = Some r
             ∧ Original.get_user svc' k = Some r)
  ∧ (∀ r0 svc0, r0 !! "id" = Some v → r !! "id" = Some v →
       py_hash v = Some k →
       Original.add_user svc r0 = Ok svc0 →
       ∃ svc', Original.add_user svc0 r = Ok svc'
               ∧ Original.get_user svc' k = Some r)
  ∧ (k ∉ dom (Original.users svc) → Original.get_user svc k = None).
Proof.
  split; [|split].
  - intros Hv Hk. eexists.
    split; [apply add_user_ok, record_key_Some; eauto|].
    unfold Original.get_user. simpl. by rewrite lookup_insert_eq.
  - intros r0 svc0 _ Hv Hk _. eexists.
    split; [apply add_user_ok, record_key_Some; eauto|].
    unfold Original.get_user. simpl. by rewrite lookup_insert_eq.
  - intros Hk. unfold Original.get_user. by apply not_elem_of_dom.
Qed.

Lemma C5_store_add_then_get_witness :
  ∃ svc', Original.add_user
            {| Original.users := {[ KStr "u1" := {[ "id" := VStr "u1"; "name" := VStr "old" ]} ]} |}
            {[ "id" := VStr "u1"; "name" := VStr "new" ]} = Ok svc'
          ∧ Original.users svc' !! KStr "u1" = Some {[ "id" := VStr "u1"; "name" := VStr "new" ]}
          ∧ Original.get_user svc' (KStr "u1") = Some {[ "id" := VStr "u1"; "name" := VStr "new" ]}.
Proof.
  apply (proj1 (C5_store_add_then_get
           {| Original.users := {[ KStr "u1" := {[ "id" := VStr "u1"; "name" := VStr "old" ]} ]} |}
           {[ "id" := VStr "u1"; "name" := VStr "new" ]} (VStr "u1") (KStr "u1")));
    reflexivity.
Defined.

(** ** The creation operation *)

(** C6: for every [name] and [email] the creation returns, in both files,
    the record with the id ["usr_new"] and the given name and email; the
    call never raises and leaves the caller's store as it was. *)
Theorem C6_post_create_user_spec (name email : string) :
  Original.post_create_user name email !! "id" = Some (VStr "usr_new")
  ∧ Original.post_create_user name email !! "name" = Some (VStr name)
  ∧ Original.post_create_user name email !! "email" = Some (VStr email)
  ∧ dom (Original.post_create_user name email) = {[ "id"; "name"; "email" ]}
  ∧ Refactored.post_create_user name email =
      {| Refactored.id := "usr_new"; Refactored.name := name; Refactored.email := email |}
  ∧ ∀ svc, Original.exec svc (Original.PostCreateUser name email)
           = (svc, Original.RCreated (Original.post_create_user name email)).
Proof. by repeat split. Qed.

(** ** Reachable states of the store *)

Lemma run_nil : Original.run [] = Original.init.
Proof. reflexivity. Qed.

Lemma run_snoc (cs : list Original.call) (c : Original.call) :
  Original.run (cs ++ [c]) = (Original.exec (Original.run cs) c).1.
Proof. unfold Original.run. by rewrite foldl_snoc. Qed.

(** What one call does to the mapping: only a successful [add_user]
    writes, and it writes the record under its own id. *)
Lemma exec_users (svc : Original.UserService) (c : Original.call) :
  Original.users (Original.exec svc c).1 =
    match c with
    | Original.AddUser user =>
        match record_key user with
        | Some k => <[k := user]> (Original.users svc)
        | None => Original.users svc
        end
    | _ => Original.users svc
    end.
Proof.
  destruct c as [| | |user|]; try reflexivity.
  simpl. unfold Original.add_user, record_key.
  destruct (user !! "id") as [v|]; simpl; [|done]. by destruct (py_hash v).
Qed.

Lemma exec_lookup (svc : Original.UserService) (c : Original.call) (k : pykey) :
  Original.users (Original.exec svc c).1 !! k =
    match added_under k c with
    | Some user => Some user
    | None => Original.users svc !! k
    end.
Proof.
  rewrite exec_users. destruct c as [| | |user|]; try reflexivity.
  simpl. case_decide as Hk.
  - rewrite Hk. by rewrite lookup_insert_eq.
  - destruct (record_key user) as [k0|] eqn:E; [|done].
    rewrite lookup_insert_ne; [done|congruence].
Qed.

Lemma added_under_id (k : pykey) (c : Original.call) (user : Dict) :
  added_under k c = Some user → record_key user = Some k.
Proof.
  destruct c; simpl; try discriminate.
  case_decide; [|discriminate]. by intros [= <-].
Qed.

Lemma filed_by_id_init : filed_by_id Original.init.
Proof. intros k r Hk. simpl in Hk. by rewrite lookup_empty in Hk. Qed.

Lemma filed_by_id_exec (svc : Original.UserService) (c : Original.call) :
  filed_by_id svc → filed_by_id (Original.exec svc c).1.
Proof.
  intros Hinv k r. rewrite exec_lookup.
  destruct (added_under k c) as [user|] eqn:E.
  - intros [= <-]. by eapply added_under_id.
  - apply Hinv.
Qed.

Lemma filed_by_id_run (cs : list Original.call) : filed_by_id (Original.run cs).
Proof.
  induction cs as [|c cs IH] using rev_ind.
  - apply filed_by_id_init.
  - rewrite run_snoc. by apply filed_by_id_exec.
Qed.

Lemma filed_by_id_one_record (svc : Original.UserService) :
  filed_by_id svc → one_record_per_id svc.
Proof.
  intros Hinv k1 k2 r1 r2 v H1 H2 Hv1 Hv2.
  pose proof (Hinv _ _ H1) as E1. pose proof (Hinv _ _ H2) as E2.
  unfold record_key in E1, E2. rewrite Hv1 in E1. rewrite Hv2 in E2.
  assert (k1 = k2) as -> by congruence.
  split; [done|congruence].
Qed.

Lemma get_user_run (cs : list Original.call) (k : pykey) :
  Original.get_user (Original.run cs) k = last_added cs k.
Proof.
  unfold Original.get_user, last_added.
  induction cs as [|c cs IH] using rev_ind; [done|].
  rewrite run_snoc, exec_lookup, omap_app, last_app, IH. simpl.
  by destruct (added_under k c).
Qed.

(** C7: a fresh store is empty, and after any finite sequence of calls
    no two entries hold records with the same id: every record is filed
    under its own id, and the entry for an id is the record of the last
    successful [add_user] for that id. *)
Theorem C7_store_invariant :
  Original.users Original.init = ∅
  ∧ (∀ k, Original.get_user Original.init k = None)
  ∧ ∀ cs : list Original.call,
      filed_by_id (Original.run cs)
      ∧ one_record_per_id (Original.run cs)
      ∧ (∀ k, Original.get_user (Original.run cs) k = last_added cs k).
Proof.
  split; [reflexivity|]. split; [intros k; apply lookup_empty|].
  intros cs. split; [apply filed_by_id_run|].
  split; [apply filed_by_id_one_record, filed_by_id_run|].
  intros k. apply get_user_run.
Qed.

Example run_example :
  Original.get_user
    (Original.run [ Original.AddUser {[ "id" := VStr "u1"; "name" := VStr "a" ]};
                    Original.GetUser (KStr "u1");
                    Original.AddUser {[ "name" := VStr "no id" ]};
                    Original.AddUser {[ "id" := VList [VInt 1]; "name" := VStr "x" ]};
                    Original.AddUser {[ "id" := VStr "u1"; "name" := VStr "b" ]} ])
    (KStr "u1")
  = Some {[ "id" := VStr "u1"; "name" := VStr "b" ]}.
Proof. vm_compute. reflexivity. Qed.

(** ** Non-positive limits *)

(** C9: for every [limit <= 0] and every integer [offset], the list
    operation of both files returns the empty list. *)
Theorem C9_get_users_nonpositive_limit (limit offset : Z) :
  (limit ≤ 0)%Z →
  Original.get_users limit offset = []
  ∧ Refactored.get_users limit offset = [].
Proof.
  intros Hle. unfold Original.get_users, Refactored.get_users.
  rewrite range_empty by lia. done.
Qed.

Lemma C9_get_users_nonpositive_limit_witness :
  (-3 ≤ 0)%Z
  ∧ Original.get_users (-3) 7 = []
  ∧ Refactored.get_users (-3) 7 = [].
Proof.
  split; [lia|]. apply (C9_get_users_nonpositive_limit (-3) 7). lia.
Defined.

(** ** Failure of [add_user] *)

Lemma add_user_unhashable (svc : Original.UserService) (user : Dict) (v : pyval) :
  user !! "id" = Some v → py_hash v = None →
  Original.add_user svc user = Raise (TypeError v).
Proof. intros Hv Hk. unfold Original.add_user. by rewrite Hv, Hk. Qed.

(** The presence of ["id"] is not enough for [add_user] to succeed: on
    the record [{"id": [1, 2]}] the key is present and the call raises
    [TypeError], since a list cannot be a dictionary key. *)
Lemma C10_add_user_unhashable_id :
  is_Some (({[ "id" := VList [VInt 1; VInt 2] ]} : Dict) !! "id")
  ∧ Original.add_user Original.init {[ "id" := VList [VInt 1; VInt 2] ]}
    = Raise (TypeError (VList [VInt 1; VInt 2]))
  ∧ ¬ ∃ svc', Original.add_user Original.init {[ "id" := VList [VInt 1; VInt 2] ]}
              = Ok svc'.
Proof.
  split; [by eexists|]. split; [reflexivity|].
  intros [svc' H]. vm_compute in H. discriminate H.
Qed.

(** C10, amended: [add_user(user)] raises a [KeyError] exactly when
    [user] has no key ["id"]; when the key is present and its value is
    hashable the call succeeds, files the record under that value and
    leaves every entry of the store under another key as it was; when
    the value is unhashable the call raises [TypeError]. *)
Theorem C10_add_user_keyerror (svc : Original.UserService) (user : Dict) :
  ((∃ key, Original.add_user svc user = Raise (KeyError key))
   ↔ user !! "id" = None)
  ∧ (user !! "id" = None →
       Original.add_user svc user = Raise (KeyError (VStr "id")))
  ∧ (∀ v k, user !! "id" = Some v → py_hash v = Some k →
       ∃ svc', Original.add_user svc user = Ok svc'
               ∧ Original.users svc' !! k = Some user
               ∧ ∀ k', k' ≠ k →
                   Original.users svc' !! k' = Original.users svc !! k')
  ∧ (∀ v, user !! "id" = Some v → py_hash v = None →
       Original.add_user svc user = Raise (TypeError v)).
Proof.
  split; [|split; [|split]].
  - unfold Original.add_user. destruct (user !! "id") as [v|].
    + split; [|discriminate]. intros [key Hkey].
      destruct (py_hash v); discriminate Hkey.
    + split; [done | intros _; by eexists].
  - apply add_user_raises.
  - intros v k Hv Hk. eexists.
    split; [apply add_user_ok, record_key_Some; eauto|]. simpl.
    split; [by rewrite lookup_insert_eq|].
    intros k' Hne. by rewrite lookup_insert_ne.
  - apply add_user_unhashable.
Qed.

Lemma C10_add_user_keyerror_witness :
  Original.add_user Original.init {[ "name" := VStr "Ann" ]}
    = Raise (KeyError (VStr "id"))
  ∧ (∃ svc', Original.add_user
               {| Original.users := {[ KStr "u2" := {[ "id" := VStr "u2" ]} ]} |}
               {[ "id" := VStr "u1"; "name" := VStr "Ann" ]} = Ok svc'
             ∧ Original.users svc' !! KStr "u1"
               = Some {[ "id" := VStr "u1"; "name" := VStr "Ann" ]}
             ∧ ∀ k', k' ≠ KStr "u1" →
                 Original.users svc' !! k'
                 = Original.users
                     {| Original.users := {[ KStr "u2" := {[ "id" := VStr "u2" ]} ]} |} !! k')
  ∧ Original.add_user Original.init {[ "id" := VList [] ]}
    = Raise (TypeError (VList [])).
Proof.
  split; [|split].
  - apply (proj1 (proj2 (C10_add_user_keyerror Original.init
                           {[ "name" := VStr "Ann" ]}))).
    reflexivity.
  - apply (proj1 (proj2 (proj2 (C10_add_user_keyerror
                           {| Original.users := {[ KStr "u2" := {[ "id" := VStr "u2" ]} ]} |}
                           {[ "id" := VStr "u1"; "name" := VStr "Ann" ]})))
                 (VStr "u1") (KStr "u1")); reflexivity.
  - apply (proj2 (proj2 (proj2 (C10_add_user_keyerror Original.init
                                  {[ "id" := VList [] ]})))); reflexivity.
Defined.

(** * Further properties of the two modules *)

(** ** Pages of the list operation *)

(** The whole behaviour of the refactored list operation, for every
    integer [limit] and [offset]: it returns [max(limit, 0)] records, the
    [i]-th built from [offset + i], and nothing past them. *)
Theorem get_users_ref_spec (limit offset : Z) (i : nat) :
  length (Refactored.get_users limit offset) = Z.to_nat (Z.max 0 limit)
  ∧ ((Z.of_nat i < limit)%Z →
       Refactored.get_users limit offset !! i =
         Some {| Refactored.id := str (offset + Z.of_nat i);
                 Refactored.name := "User " +:+ str (offset + Z.of_nat i);
                 Refactored.email := "" |})
  ∧ ((limit ≤ Z.of_nat i)%Z → Refactored.get_users limit offset !! i = None).
Proof.
  split; [|split].
  - rewrite get_users_ref_length. lia.
  - apply get_users_ref_lookup.
  - intros Hge. apply lookup_ge_None. rewrite get_users_ref_length. lia.
Qed.

Lemma get_users_ref_spec_witness :
  Refactored.get_users 3 (-1) !! 2%nat =
    Some {| Refactored.id := str (-1 + Z.of_nat 2);
            Refactored.name := "User " +:+ str (-1 + Z.of_nat 2);
            Refactored.email := "" |}
  ∧ Refactored.get_users 3 (-1) !! 3%nat = None.
Proof.
  split.
  - apply (proj1 (proj2 (get_users_ref_spec 3 (-1) 2))). reflexivity.
  - apply (proj2 (proj2 (get_users_ref_spec 3 (-1) 3))). reflexivity.
Defined.

(** The whole behaviour of the original list operation, for every
    integer [limit] and [offset]: [max(limit, 0)] dictionaries, the
    [i]-th with exactly the keys ["id"] and ["name"], the integer
    [offset + i] under ["id"] and the formatted name under ["name"]. *)
Theorem get_users_orig_spec (limit offset : Z) (i : nat) :
  length (Original.get_users limit offset) = Z.to_nat (Z.max 0 limit)
  ∧ ((Z.of_nat i < limit)%Z →
       ∃ d, Original.get_users limit offset !! i = Some d
            ∧ d !! "id" = Some (VInt (offset + Z.of_nat i))
            ∧ d !! "name" = Some (VStr ("User " +:+ str (offset + Z.of_nat i)))
            ∧ dom d = {[ "id"; "name" ]})
  ∧ ((limit ≤ Z.of_nat i)%Z → Original.get_users limit offset !! i = None).
Proof.
  split; [|split].
  - rewrite get_users_orig_length. lia.
  - intros Hi. eexists. split; [by apply get_users_orig_lookup|].
    split; [done|]. split; [done|].
    rewrite dom_insert_L, dom_singleton_L. set_solver.
  - intros Hge. apply lookup_ge_None. rewrite get_users_orig_length. lia.
Qed.

Lemma get_users_orig_spec_witness :
  (∃ d, Original.get_users 2 5 !! 1%nat = Some d
        ∧ d !! "id" = Some (VInt (5 + Z.of_nat 1))
        ∧ d !! "name" = Some (VStr ("User " +:+ str (5 + Z.of_nat 1)))
        ∧ dom d = {[ "id"; "name" ]})
  ∧ Original.get_users 2 5 !! 2%nat = None.
Proof.
  split.
  - apply (proj1 (proj2 (get_users_orig_spec 2 5 1))). reflexivity.
  - apply (proj2 (proj2 (get_users_orig_spec 2 5 2))). reflexivity.
Defined.

(** Consecutive pages concatenate: the page of [limit1] records at
    [offset] followed by the page of [limit2] records at
    [offset + limit1] is the page of [limit1 + limit2] records at
    [offset], in both files. *)
Theorem get_users_pages_concat (limit1 limit2 offset : Z) :
  (0 ≤ limit1)%Z → (0 ≤ limit2)%Z →
  Original.get_users (limit1 + limit2) offset
    = Original.get_users limit1 offset
        ++ Original.get_users limit2 (offset + limit1)
  ∧ Refactored.get_users (limit1 + limit2) offset
    = Refactored.get_users limit1 offset
        ++ Refactored.get_users limit2 (offset + limit1).
Proof.
  intros H1 H2. unfold Original.get_users, Refactored.get_users.
  rewrite !range_from_len, seqZ_app, !fmap_app by done. done.
Qed.

Lemma get_users_pages_concat_witness :
  Original.get_users (2 + 3) 4
    = Original.get_users 2 4 ++ Original.get_users 3 (4 + 2)
  ∧ Refactored.get_users (2 + 3) 4
    = Refactored.get_users 2 4 ++ Refactored.get_users 3 (4 + 2).
Proof. apply (get_users_pages_concat 2 3 4); lia. Defined.

(** A record depends only on its absolute position: two pages that both
    cover the position [offset1 + i = offset2 + j] hold the same record
    there, in both files. *)
Theorem get_users_pages_overlap (limit1 offset1 limit2 offset2 : Z) (i j : nat) :
  (Z.of_nat i < limit1)%Z → (Z.of_nat j < limit2)%Z →
  (offset1 + Z.of_nat i = offset2 + Z.of_nat j)%Z →
  Original.get_users limit1 offset1 !! i = Original.get_users limit2 offset2 !! j
  ∧ Refactored.get_users limit1 offset1 !! i
    = Refactored.get_users limit2 offset2 !! j.
Proof.
  intros Hi Hj Hpos.
  rewrite !get_users_orig_lookup, !get_users_ref_lookup by done.
  by rewrite Hpos.
Qed.

Lemma get_users_pages_overlap_witness :
  Original.get_users 10 0 !! 7%nat = Original.get_users 3 6 !! 1%nat
  ∧ Refactored.get_users 10 0 !! 7%nat = Refactored.get_users 3 6 !! 1%nat.
Proof. apply (get_users_pages_overlap 10 0 3 6 7 1); reflexivity. Defined.

Lemma str_inj : Inj (=) (=) str.
Proof. unfold str. apply _. Qed.

(** No two records of a page share an id, in either file. *)
Theorem get_users_ids_distinct (limit offset : Z) :
  NoDup ((λ d : Dict, d !! "id") <$> Original.get_users limit offset)
  ∧ NoDup (Refactored.id <$> Refactored.get_users limit offset).
Proof.
  unfold Original.get_users, Refactored.get_users.
  rewrite <- !list_fmap_compose. split.
  - apply (NoDup_fmap_2_strong _); [|apply NoDup_seqZ].
    intros x y _ _ Heq. simpl in Heq.
    rewrite !lookup_insert_eq in Heq. congruence.
  - pose proof str_inj. apply (NoDup_fmap_2 str), NoDup_seqZ.
Qed.

(** ** The sentinel against generated ids *)

(** The decimal form of a number never starts with the letter [n]. *)
Lemma pretty_N_go_not_n (x : N) (s s' : string) :
  s ≠ "n" +:+ s' → pretty_N_go x s ≠ "n" +:+ s'.
Proof.
  revert s. induction (N.lt_wf_0 x) as [x _ IH]. intros s Hs.
  destruct (decide (x = 0%N)) as [->|Hx].
  - by rewrite pretty_N_go_0.
  - rewrite pretty_N_go_step by lia. apply IH.
    + apply N.div_lt; lia.
    + unfold pretty_N_char. repeat case_match; discriminate.
Qed.

Lemma str_not_sentinel (i : Z) : str i ≠ "not_found".
Proof.
  unfold str, pretty, pretty_Z. destruct i as [|p|p].
  - discriminate.
  - unfold pretty, pretty_positive, pretty, pretty_N.
    case_decide; [discriminate|].
    by apply (pretty_N_go_not_n (N.pos p) "" "ot_found").
  - discriminate.
Qed.

(** In the refactored file every id that the list operation hands out is
    accepted by the lookup: the sentinel ["not_found"] is never a
    generated id, so looking a listed user up returns a record with the
    same id. *)
Theorem get_users_ref_ids_found (limit offset : Z) (u : Refactored.User) :
  u ∈ Refactored.get_users limit offset →
  Refactored.get_user_by_id (Refactored.id u) =
    Some {| Refactored.id := Refactored.id u;
            Refactored.name := "Test User";
            Refactored.email := "test@example.com" |}.
Proof.
  unfold Refactored.get_users. intros (i & -> & _)%list_elem_of_fmap. simpl.
  unfold Refactored.get_user_by_id.
  destruct (String.eqb (str i) "not_found") eqn:E; [|done].
  apply eqb_not_found in E. by destruct (str_not_sentinel i).
Qed.

Lemma get_users_ref_ids_found_witness :
  Refactored.get_user_by_id "5" =
    Some {| Refactored.id := "5";
            Refactored.name := "Test User";
            Refactored.email := "test@example.com" |}.
Proof.
  apply (get_users_ref_ids_found 3 4
           {| Refactored.id := "5"; Refactored.name := "User 5";
              Refactored.email := "" |}).
  vm_compute. apply list_elem_of_further, list_elem_of_here.
Defined.

(** ** Validation of the records the module produces *)

(** A created record always passes [validate_input], and the result of a
    lookup passes it exactly when the id is not the sentinel. *)
Theorem validate_input_accepts_outputs (name email user_id : string) :
  Original.validate_input (Some (Original.post_create_user name email)) = true
  ∧ Original.validate_input (Original.get_user_by_id user_id)
    = negb (String.eqb user_id "not_found").
Proof.
  split.
  - apply validate_input_true. eexists. split; [reflexivity|].
    split; eexists; reflexivity.
  - unfold Original.get_user_by_id.
    destruct (String.eqb user_id "not_found"); [reflexivity|].
    apply validate_input_true. eexists. split; [reflexivity|].
    split; eexists; reflexivity.
Qed.

(** No record of the original list operation passes [validate_input]:
    the listed dictionaries carry no ["email"]. *)
Theorem validate_input_rejects_listed (limit offset : Z) (d : Dict) :
  d ∈ Original.get_users limit offset →
  Original.validate_input (Some d) = false.
Proof.
  intros [i Hi]%list_elem_of_lookup.
  apply get_users_orig_fields in Hi as (_ & _ & Hemail).
  apply not_true_is_false. rewrite validate_input_true.
  intros (d' & [= <-] & _ & [x Hx]). congruence.
Qed.

Lemma validate_input_rejects_listed_witness :
  Original.validate_input
    (Some {[ "id" := VInt 1; "name" := VStr "User 1" ]}) = false.
Proof.
  apply (validate_input_rejects_listed 2 0).
  vm_compute. apply list_elem_of_further, list_elem_of_here.
Defined.

(** [validate_input] only grows with the mapping: a mapping that
    contains an accepted one is accepted, and removing ["name"] or
    ["email"] from any mapping makes it rejected. *)
Theorem validate_input_monotone (d d' : Dict) :
  (d ⊆ d' → Original.validate_input (Some d) = true →
   Original.validate_input (Some d') = true)
  ∧ Original.validate_input (Some (delete "name" d)) = false
  ∧ Original.validate_input (Some (delete "email" d)) = false.
Proof.
  split; [|split].
  - intros Hsub (? & [= <-] & [x Hx] & [y Hy])%validate_input_true.
    apply validate_input_true. exists d'. split; [done|].
    split; eexists; eapply lookup_weaken; eauto.
  - apply not_true_is_false. rewrite validate_input_true.
    intros (? & [= <-] & [x Hx] & _). by rewrite lookup_delete_eq in Hx.
  - apply not_true_is_false. rewrite validate_input_true.
    intros (? & [= <-] & _ & [x Hx]). by rewrite lookup_delete_eq in Hx.
Qed.

Lemma validate_input_monotone_witness :
  Original.validate_input
    (Some {[ "name" := VStr "a"; "email" := VStr "b"; "age" := VInt 3 ]}) = true.
Proof.
  apply (proj1 (validate_input_monotone
                  {[ "name" := VStr "a"; "email" := VStr "b" ]}
                  {[ "name" := VStr "a"; "email" := VStr "b"; "age" := VInt 3 ]})).
  - apply map_subseteq_spec. intros k v Hk.
    destruct (decide (k = "name")) as [->|]; [by simplify_map_eq|].
    destruct (decide (k = "email")) as [->|]; [by simplify_map_eq|].
    by simplify_map_eq.
  - reflexivity.
Defined.

(** ** Storing what the module produces *)

Lemma listed_record_id (i : Z) :
  record_key {[ "id" := VInt i; "name" := VStr (fmt_user i) ]}
  = Some (KInt i).
Proof. unfold record_key. by rewrite lookup_insert_eq. Qed.

(** The store after adding the records built from the numbers [zs], one
    [add_user] each, to a fresh service. *)
Lemma run_add_listed (zs : list Z) (k : pykey) :
  Original.users
    (Original.run
       (Original.AddUser <$>
          ((λ i, {[ "id" := VInt i; "name" := VStr (fmt_user i) ]} : Dict) <$> zs)))
    !! k
  = match k with
    | KInt n =>
        if bool_decide (n ∈ zs)
        then Some {[ "id" := VInt n; "name" := VStr (fmt_user n) ]}
        else None
    | _ => None
    end.
Proof.
  induction zs as [|z zs IH] using rev_ind.
  - simpl. rewrite lookup_empty. by destruct k.
  - rewrite !fmap_app. simpl. rewrite run_snoc, exec_lookup, IH. simpl.
    rewrite listed_record_id. case_decide as Hk.
    + injection Hk as <-. rewrite bool_decide_eq_true_2; [done|].
      apply elem_of_app. right. by apply list_elem_of_singleton.
    + destruct k as [|n|s]; try done.
      assert (n ≠ z) as Hne by congruence.
      destruct (decide (n ∈ zs)) as [Hin|Hnin].
      * rewrite (bool_decide_eq_true_2 (n ∈ zs)) by done.
        rewrite (bool_decide_eq_true_2 (n ∈ zs ++ [z])); [done|].
        apply elem_of_app. by left.
      * rewrite (bool_decide_eq_false_2 (n ∈ zs)) by done.
        rewrite (bool_decide_eq_false_2 (n ∈ zs ++ [z])); [done|].
        rewrite elem_of_app, list_elem_of_singleton. tauto.
Qed.

(** Adding a whole page of the original list operation to a fresh
    service: the store then answers exactly the integer keys
    [offset <= n < offset + limit], each with its listed record, and
    answers [None] for every other key, every string key included. *)
Theorem store_listed_page (limit offset : Z) (k : pykey) :
  Original.get_user
    (Original.run (Original.AddUser <$> Original.get_users limit offset)) k
  = match k with
    | KInt n =>
        if bool_decide (offset ≤ n < offset + limit)%Z
        then Some {[ "id" := VInt n; "name" := VStr ("User " +:+ str n) ]}
        else None
    | _ => None
    end.
Proof.
  unfold Original.get_user, Original.get_users.
  rewrite run_add_listed, range_from_len. destruct k as [|n|s]; try done.
  destruct (decide (offset ≤ n < offset + limit)%Z) as [Hin|Hnin].
  - rewrite (bool_decide_eq_true_2 (offset ≤ n < offset + limit)%Z) by done.
    rewrite (bool_decide_eq_true_2 (n ∈ seqZ offset limit)); [done|].
    by apply elem_of_seqZ.
  - rewrite (bool_decide_eq_false_2 (offset ≤ n < offset + limit)%Z) by done.
    rewrite (bool_decide_eq_false_2 (n ∈ seqZ offset limit)); [done|].
    by rewrite elem_of_seqZ.
Qed.

(** Such a store holds one entry per listed record. *)
Theorem store_listed_page_size (limit offset : Z) :
  size (Original.users
          (Original.run (Original.AddUser <$> Original.get_users limit offset)))
  = Z.to_nat (Z.max 0 limit).
Proof.
  rewrite <- size_dom.
  assert (dom (Original.users
            (Original.run (Original.AddUser <$> Original.get_users limit offset)))
          = list_to_set (KInt <$> seqZ offset limit)) as ->.
  { apply set_eq. intros k.
    rewrite elem_of_dom, elem_of_list_to_set, list_elem_of_fmap.
    setoid_rewrite elem_of_seqZ.
    pose proof (store_listed_page_aux := run_add_listed (seqZ offset limit) k).
    unfold Original.get_users. rewrite range_from_len, store_listed_page_aux.
    destruct k as [|n|s].
    - split; [by intros [? ?] | by intros (? & ? & _)].
    - case_bool_decide as Hn; rewrite elem_of_seqZ in Hn.
      + split; [by exists n | by eexists].
      + split; [by intros [? ?] | intros (m & [= ->] & Hm); tauto].
    - split; [by intros [? ?] | by intros (? & ? & _)]. }
  rewrite size_list_to_set.
  - rewrite length_fmap, length_seqZ. lia.
  - apply (NoDup_fmap_2_strong _); [|apply NoDup_seqZ]. congruence.
Qed.

(** Every created record carries the id ["usr_new"], so two created
    users stored one after the other leave only the second: the service
    is the one obtained by storing the second alone. *)
Theorem created_users_collide
    (svc : Original.UserService) (name1 email1 name2 email2 : string) :
  ∃ svc1 svc2,
    Original.add_user svc (Original.post_create_user name1 email1) = Ok svc1
    ∧ Original.add_user svc1 (Original.post_create_user name2 email2) = Ok svc2
    ∧ Original.add_user svc (Original.post_create_user name2 email2) = Ok svc2
    ∧ Original.get_user svc2 (KStr "usr_new")
      = Some (Original.post_create_user name2 email2)
    ∧ size (Original.users svc2) = size (Original.users svc1).
Proof.
  do 2 eexists. split; [by apply (add_user_ok _ _ (KStr "usr_new"))|].
  split; [by apply (add_user_ok _ _ (KStr "usr_new"))|]. simpl.
  split; [|split].
  - rewrite (add_user_ok _ _ (KStr "usr_new")) by done.
    by rewrite insert_insert_eq.
  - unfold Original.get_user. simpl. by rewrite lookup_insert_eq.
  - apply map_size_insert_Some. rewrite lookup_insert_eq. by eexists.
Qed.

(** A successful [add_user] adds the id of the record to the keys of the
    store and nothing else: the store grows by one entry when the id is
    new and keeps its size when the id was already stored. *)
Theorem add_user_keys
    (svc svc' : Original.UserService) (user : Dict) (v : pyval) (k : pykey) :
  user !! "id" = Some v → py_hash v = Some k →
  Original.add_user svc user = Ok svc' →
  dom (Original.users svc') = {[ k ]} ∪ dom (Original.users svc)
  ∧ (k ∈ dom (Original.users svc) →
       size (Original.users svc') = size (Original.users svc))
  ∧ (k ∉ dom (Original.users svc) →
       size (Original.users svc') = S (size (Original.users svc))).
Proof.
  intros Hv Hk Hadd.
  rewrite (add_user_ok _ _ k) in Hadd by (apply record_key_Some; eauto).
  injection Hadd as <-. simpl. split; [apply dom_insert_L|]. split.
  - intros Hin. apply map_size_insert_Some. by apply elem_of_dom.
  - intros Hnin. apply map_size_insert_None. by apply not_elem_of_dom.
Qed.

Lemma add_user_keys_witness :
  dom (Original.users
         {| Original.users := <[KStr "u1" := {[ "id" := VStr "u1" ]}]> ∅ |})
    = {[ KStr "u1" ]} ∪ dom (Original.users Original.init)
  ∧ (KStr "u1" ∈ dom (Original.users Original.init) →
       size (Original.users
               {| Original.users := <[KStr "u1" := {[ "id" := VStr "u1" ]}]> ∅ |})
       = size (Original.users Original.init))
  ∧ (KStr "u1" ∉ dom (Original.users Original.init) →
       size (Original.users
               {| Original.users := <[KStr "u1" := {[ "id" := VStr "u1" ]}]> ∅ |})
       = S (size (Original.users Original.init))).
Proof.
  apply (add_user_keys Original.init _ {[ "id" := VStr "u1" ]}
           (VStr "u1") (KStr "u1"));
    reflexivity.
Defined.

Lemma exec_add_user (svc : Original.UserService) (user : Dict) :
  (Original.exec svc (Original.AddUser user)).1 =
    match record_key user with
    | Some k => {| Original.users := <[k := user]> (Original.users svc) |}
    | None => svc
    end.
Proof.
  simpl. unfold Original.add_user, record_key.
  destruct (user !! "id") as [v|]; simpl; [|done]. by destruct (py_hash v).
Qed.

(** Storing the same record twice is storing it once, and records with
    different ids (or one whose [add_user] raises, for want of an id or
    of a hashable one) can be stored in either order. *)
Theorem add_user_idempotent_commutes
    (svc : Original.UserService) (u1 u2 : Dict) :
  (Original.exec (Original.exec svc (Original.AddUser u1)).1
                 (Original.AddUser u1)).1
  = (Original.exec svc (Original.AddUser u1)).1
  ∧ (u1 !! "id" ≠ u2 !! "id" →
       (Original.exec (Original.exec svc (Original.AddUser u1)).1
                      (Original.AddUser u2)).1
       = (Original.exec (Original.exec svc (Original.AddUser u2)).1
                        (Original.AddUser u1)).1).
Proof.
  rewrite !exec_add_user. split.
  - destruct (record_key u1) as [k|]; [|done].
    simpl. by rewrite insert_insert_eq.
  - intros Hne.
    destruct (record_key u1) as [k1|] eqn:E1,
             (record_key u2) as [k2|] eqn:E2; try done.
    simpl. rewrite insert_insert_ne; [done|]. intros <-. apply Hne.
    apply record_key_Some in E1 as (v1 & Hv1 & Hk1).
    apply record_key_Some in E2 as (v2 & Hv2 & Hk2).
    rewrite Hv1, Hv2. f_equal. by eapply py_hash_inj.
Qed.

Lemma add_user_idempotent_commutes_witness :
  (Original.exec
     (Original.exec Original.init (Original.AddUser {[ "id" := VStr "a" ]})).1
     (Original.AddUser {[ "id" := VInt 7 ]})).1
  = (Original.exec
       (Original.exec Original.init (Original.AddUser {[ "id" := VInt 7 ]})).1
       (Original.AddUser {[ "id" := VStr "a" ]})).1.
Proof.
  apply (proj2 (add_user_idempotent_commutes Original.init
                  {[ "id" := VStr "a" ]} {[ "id" := VInt 7 ]})).
  vm_compute. discriminate.
Defined.

(** The store never forgets an id: once [get_user] answers for a key, it
    answers for it after any further calls. *)
Theorem store_keeps_keys (cs cs' : list Original.call) (k : pykey) :
  is_Some (Original.get_user (Original.run cs) k) →
  is_Some (Original.get_user (Original.run (cs ++ cs')) k).
Proof.
  intros Hk. induction cs' as [|c cs' IH] using rev_ind.
  - by rewrite app_nil_r.
  - rewrite app_assoc, run_snoc. unfold Original.get_user in *.
    rewrite exec_lookup. by destruct (added_under k c).
Qed.

Lemma store_keeps_keys_witness :
  is_Some (Original.get_user
             (Original.run ([ Original.AddUser {[ "id" := VStr "u1" ]} ]
                            ++ [ Original.AddUser {[ "id" := VStr "u2" ]};
                                 Original.GetUser (KStr "u1");
                                 Original.AddUser {[ "name" := VStr "x" ]} ]))
             (KStr "u1")).
Proof.
  apply (store_keeps_keys [ Original.AddUser {[ "id" := VStr "u1" ]} ]).
  vm_compute. by eexists.
Defined.

(** A record returned by the lookup can be stored and read back under
    the id that was looked up. *)
Theorem lookup_store_round_trip
    (svc : Original.UserService) (user_id : string) :
  user_id ≠ "not_found" →
  ∃ d svc', Original.get_user_by_id user_id = Some d
            ∧ Original.add_user svc d = Ok svc'
            ∧ Original.get_user svc' (KStr user_id) = Some d.
Proof.
  intros Hne. unfold Original.get_user_by_id.
  destruct (String.eqb user_id "not_found") eqn:E.
  { by apply eqb_not_found in E. }
  do 2 eexists. split; [reflexivity|].
  split; [by apply (add_user_ok _ _ (KStr user_id))|].
  unfold Original.get_user. simpl. by rewrite lookup_insert_eq.
Qed.

Lemma lookup_store_round_trip_witness :
  ∃ d svc', Original.get_user_by_id "u9" = Some d
            ∧ Original.add_user Original.init d = Ok svc'
            ∧ Original.get_user svc' (KStr "u9") = Some d.
Proof. apply (lookup_store_round_trip Original.init "u9"). discriminate. Defined.

(** ** The two files side by side *)

(** On lookup and on creation the refactored file returns, for every
    input, the same user as the original file: [None] on the same id,
    and otherwise records with the same id, name and email. *)
Theorem refactored_same_lookup_and_creation (user_id name email : string) :
  option_Forall2 same_user
    (Original.get_user_by_id user_id) (Refactored.get_user_by_id user_id)
  ∧ (Original.get_user_by_id user_id = None
     ↔ Refactored.get_user_by_id user_id = None)
  ∧ same_user (Original.post_create_user name email)
              (Refactored.post_create_user name email).
Proof.
  split; [apply get_user_by_id_refines|].
  split; [|apply post_create_user_refines].
  unfold Original.get_user_by_id, Refactored.get_user_by_id.
  by destruct (String.eqb user_id "not_found").
Qed.
